(** * scripts/generate_enum_source.py

    A shallow embedding of the enum-source generator script of libgdata and
    the properties of its pipeline: template building, invocation of
    glib-mkenums, regex post-processing and writing.

    Conventions of the embedding.
    - A Python [str] is the [string] of its UTF-8 encoding; [bytes] is a
      [list byte]. A [string] that is no well-formed UTF-8 stands for a [str]
      with lone surrogates, as the command line can bring in.
    - Everything outside the script (the location of the script, the search
      path, the program that gets spawned, the regex engine) is collected in
      a [World], fixed during a run.
    - The script's effects (printing, spawning, writing files, [sys.exit],
      exceptions) live in a small state-and-exception monad [M]. *)

From Stdlib Require Import ZArith NArith Ascii String List.
From Stdlib.Strings Require Import Byte.
From stdpp Require Import base option gmap strings list fin_maps.

Local Open Scope string_scope.
Local Open Scope Z_scope.

(** ** The double quote and the newline, by their codes *)

Definition dq : string := String "034"%char EmptyString.
Definition nl : string := String "010"%char EmptyString.

(** ** posixpath *)

Module posixpath.

Definition is_sep (c : ascii) : bool := Ascii.eqb c "/"%char.

Definition startswith_sep (s : string) : bool :=
  match s with
  | String c _ => is_sep c
  | EmptyString => false
  end.

Fixpoint endswith_sep (s : string) : bool :=
  match s with
  | EmptyString => false
  | String c EmptyString => is_sep c
  | String _ r => endswith_sep r
  end.

Fixpoint has_sep (s : string) : bool :=
  match s with
  | EmptyString => false
  | String c r => is_sep c || has_sep r
  end.

Fixpoint all_sep (s : string) : bool :=
  match s with
  | EmptyString => true
  | String c r => is_sep c && all_sep r
  end.

(** [posixpath.join(a, b)]: an absolute [b] replaces [a]; otherwise the two
    are glued with exactly one separator between them. *)
Definition join (a b : string) : string :=
  if startswith_sep b then b
  else if String.eqb a EmptyString || endswith_sep a then a ++ b
  else a ++ "/" ++ b.

(** [p[:p.rfind('/') + 1]] *)
Fixpoint upto_last_sep (p : string) : string :=
  match p with
  | EmptyString => EmptyString
  | String c r =>
      if has_sep r then String c (upto_last_sep r)
      else if is_sep c then String c EmptyString
      else EmptyString
  end.

(** [s.rstrip('/')] *)
Fixpoint rstrip_sep (s : string) : string :=
  match s with
  | EmptyString => EmptyString
  | String c r => if all_sep (String c r) then EmptyString else String c (rstrip_sep r)
  end.

(** [posixpath.dirname(p)] *)
Definition dirname (p : string) : string :=
  let head := upto_last_sep p in
  if negb (String.eqb head EmptyString) && negb (all_sep head)
  then rstrip_sep head
  else head.

End posixpath.

(** ** The file system

    A path names its file or directory by resolution: two spellings of one
    place ([/build/./enums.c] and [/build/enums.c], a symbolic link and what
    it points to) resolve to one name. Directories are a set of resolved
    names, regular files a finite map from resolved names to their text.
    With the file system comes the encoding its text files are opened with,
    the one of the locale: [fs_encodable] tells the texts it can hold. *)

Record FS := mkFS {
  fs_resolve : string → string;
  fs_encodable : string → bool;
  fs_dirs : gset string;
  fs_files : gmap string string
}.

Definition isdir (fs : FS) (p : string) : bool :=
  bool_decide (fs_resolve fs p ∈ fs_dirs fs).

(** The text of the file that [p] names, if there is one. *)
Definition read_file (fs : FS) (p : string) : option string :=
  fs_files fs !! fs_resolve fs p.

(** [p] and [q] name the same file. *)
Definition same_file (fs : FS) (p q : string) : Prop :=
  fs_resolve fs p = fs_resolve fs q.

(** Two file systems with the same names, directories and encoding: they
    differ in their regular files at most. *)
Definition same_places (fs fs' : FS) : Prop :=
  fs_resolve fs' = fs_resolve fs
  ∧ fs_encodable fs' = fs_encodable fs
  ∧ fs_dirs fs' = fs_dirs fs.

(** ** Exceptions, outcomes and the monad of the script *)

Inductive exn :=
  | TypeError
  | AssertionError
  | OSError
  | UnicodeDecodeError
  | UnicodeEncodeError
  | re_error.

#[global] Instance exn_eq_dec : EqDecision exn.
Proof. solve_decision. Defined.

(** How a computation ends: with a value, with an exception travelling up, or
    with [sys.exit(code)] ([SystemExit], which no handler of the script
    catches). *)
Inductive outcome (A : Type) :=
  | Returned (a : A)
  | Raised (e : exn)
  | SysExit (code : Z).
Arguments Returned {A} a.
Arguments Raised {A} e.
Arguments SysExit {A} code.

Record state := mkState {
  st_fs : FS;
  st_stdout : list string;           (* lines on standard output so far *)
  st_stderr : list string;           (* lines on standard error so far *)
  st_spawned : list (list string)    (* argument vectors of the processes spawned so far *)
}.

Definition add_line (st : state) (line : string) : state :=
  mkState (st_fs st) (st_stdout st ++ [line]) (st_stderr st) (st_spawned st).

Definition add_stderr (st : state) (lines : list string) : state :=
  mkState (st_fs st) (st_stdout st) (st_stderr st ++ lines) (st_spawned st).

Definition add_spawned (st : state) (argv : list string) : state :=
  mkState (st_fs st) (st_stdout st) (st_stderr st) (st_spawned st ++ [argv]).

Definition set_files (st : state) (files : gmap string string) : state :=
  mkState (mkFS (fs_resolve (st_fs st)) (fs_encodable (st_fs st)) (fs_dirs (st_fs st)) files)
    (st_stdout st) (st_stderr st) (st_spawned st).

Definition M (A : Type) : Type := state → outcome A * state.

#[global] Instance M_ret : MRet M := λ A (a : A) st, (Returned a, st).

#[global] Instance M_bind : MBind M := λ A B (k : A → M B) (m : M A) st,
  match m st with
  | (Returned a, st') => k a st'
  | (Raised e, st') => (Raised e, st')
  | (SysExit c, st') => (SysExit c, st')
  end.

Definition raise {A} (e : exn) : M A := λ st, (Raised e, st).

Definition sys_exit {A} (code : Z) : M A := λ st, (SysExit code, st).

(** [try: body except e: handler] *)
Definition try_except {A} (body : M A) (e : exn) (handler : M A) : M A := λ st,
  match body st with
  | (Raised e', st') => if decide (e' = e) then handler st' else (Raised e', st')
  | r => r
  end.

(** [assert(b)] *)
Definition assert_ (b : bool) : M unit :=
  if b then mret tt else raise AssertionError.

(** [print(line)] writes to standard output. *)
Definition print (line : string) : M unit := λ st,
  (Returned tt, add_line st line).

(** [for x in xs: body(x)] *)
Fixpoint for_in {A} (xs : list A) (body : A → M unit) : M unit :=
  match xs with
  | [] => mret tt
  | x :: xs' => body x ;; for_in xs' body
  end.

(** [os.path.isdir(p)]. The argument may be [None]: [os.stat] then rejects it
    with [TypeError], which [isdir] (it only swallows [OSError] and
    [ValueError]) lets through. *)
Definition path_isdir (p : option string) : M bool := λ st,
  match p with
  | Some d => (Returned (isdir (st_fs st) d), st)
  | None => (Raised TypeError, st)
  end.

(** [with open(p, 'w+') as f: f.write(text)]. [open] creates the file or
    empties the one there is; it fails with [OSError] when [p] is empty or
    ends in a separator, when it names a directory, or when the directory it
    lies in does not exist (an empty directory part is the current
    directory). [f.write] then encodes the text: where the encoding cannot
    hold it, [UnicodeEncodeError] is raised and the file stays as [open] left
    it, empty. Permissions are not modelled. *)
Definition write_file (p text : string) : M unit := λ st,
  let fs := st_fs st in
  let parent := posixpath.dirname p in
  if String.eqb p EmptyString || posixpath.endswith_sep p then (Raised OSError, st)
  else if isdir fs p then (Raised OSError, st)
  else if negb (String.eqb parent EmptyString) && negb (isdir fs parent) then (Raised OSError, st)
  else if fs_encodable fs text
  then (Returned tt, set_files st (<[fs_resolve fs p := text]> (fs_files fs)))
  else (Raised UnicodeEncodeError,
        set_files st (<[fs_resolve fs p := EmptyString]> (fs_files fs))).

(** ** UTF-8

    [bytes.decode('utf-8')] is strict: it accepts exactly the well-formed byte
    sequences (no overlong forms, no surrogates, nothing above U+10FFFF) and
    raises [UnicodeDecodeError] otherwise. *)

Definition byte_in (lo hi : N) (b : byte) : bool :=
  ((lo <=? Byte.to_N b) && (Byte.to_N b <=? hi))%N.

Definition continuation : byte → bool := byte_in 0x80 0xBF.

(** The second byte of a three-byte sequence, given the first. *)
Definition second_of_3 (b0 b1 : byte) : bool :=
  if byte_in 0xE0 0xE0 b0 then byte_in 0xA0 0xBF b1
  else if byte_in 0xED 0xED b0 then byte_in 0x80 0x9F b1
  else continuation b1.

(** The second byte of a four-byte sequence, given the first. *)
Definition second_of_4 (b0 b1 : byte) : bool :=
  if byte_in 0xF0 0xF0 b0 then byte_in 0x90 0xBF b1
  else if byte_in 0xF4 0xF4 b0 then byte_in 0x80 0x8F b1
  else continuation b1.

Fixpoint utf8_valid (bs : list byte) : bool :=
  match bs with
  | [] => true
  | b0 :: r0 =>
      if byte_in 0x00 0x7F b0 then utf8_valid r0
      else
        match r0 with
        | [] => false
        | b1 :: r1 =>
            if byte_in 0xC2 0xDF b0 then continuation b1 && utf8_valid r1
            else
              match r1 with
              | [] => false
              | b2 :: r2 =>
                  if byte_in 0xE0 0xEF b0
                  then second_of_3 b0 b1 && continuation b2 && utf8_valid r2
                  else
                    match r2 with
                    | [] => false
                    | b3 :: r3 =>
                        if byte_in 0xF0 0xF4 b0
                        then second_of_4 b0 b1 && continuation b2 && continuation b3
                             && utf8_valid r3
                        else false
                    end
              end
        end
  end.

(** [output.decode('utf-8')] *)
Definition decode_utf8 (output : list byte) : M string :=
  if utf8_valid output then mret (string_of_list_byte output)
  else raise UnicodeDecodeError.

(** ** The world around the script *)

(** A spawned child, as [communicate()] sees it: either reading its output
    raises, or it runs to its end, leaving an exit status, what it wrote to
    its standard output, which is piped, and what it wrote to its standard
    error, which it shares with the script. *)
Inductive Process :=
  | CaptureFails
  | Exits (returncode : Z) (stdout_data : list byte) (stderr_lines : list string).

Record World := mkWorld {
  (** [path.realpath(sys.argv[0])] *)
  argv0_realpath : string;
  (** [shutil.which] *)
  which : string → option string;
  (** what executing an argument vector does; [None]: it cannot be executed *)
  execute : list string → option Process;
  (** [re.sub(pattern, repl, string)]; [None]: it raises [re.error] *)
  re_sub : string → string → string → option string
}.

(** The namespace [parser.parse_args()] returns; the parser itself is
    [argparse]'s and the embedding starts from its result. [--replace] has
    [nargs=2] and [action='append']: a list of pairs, or [None] when the flag
    is absent; [--source-dir] and [--out-dir] are [None] when absent. *)
Record Args := mkArgs {
  output_file : string;
  sources : list string;
  replace : option (list (string * string));
  source_dir : option string;
  out_dir : option (list string)
}.

Definition get_script_path (w : World) : string :=
  posixpath.dirname (argv0_realpath w).

(** [subprocess.Popen(cmd, stdout=subprocess.PIPE)]. Every element of [cmd]
    must be a string, which is checked before anything is executed. *)
Definition Popen (w : World) (cmd : list (option string)) : M Process := λ st,
  match mapM id cmd with
  | None => (Raised TypeError, st)
  | Some argv =>
      match execute w argv with
      | None => (Raised OSError, st)
      | Some p => (Returned p, add_spawned st argv)
      end
  end.

(** [process.communicate()]: the pair of what was captured from standard
    output and from standard error. Standard error is not piped, so its
    component is [None]. *)
Definition communicate (p : Process) : M (list byte * option (list byte)) :=
  match p with
  | CaptureFails => raise OSError
  | Exits _ out err => λ st, (Returned (out, None), add_stderr st err)
  end.

(** ** The script *)

(** The local [sources] of [create_enum_source]: every listed source joined
    with the source directory, or with the directory of the script. *)
Definition resolved_sources (w : World) (args : Args) : list string :=
  match source_dir args with
  | Some d => map (λ source_file, posixpath.join d source_file) (sources args)
  | None => map (λ source_file, posixpath.join (get_script_path w) source_file) (sources args)
  end.

(** The local [bash_command] of [create_enum_source]. Its head is what
    [which] answers, [None] when the program is not on the search path. *)
Definition bash_command (w : World) (sources : list string)
    (fhead fprod ftail vhead vprod vtail : string) : list (option string) :=
  [which w "glib-mkenums";
   Some "--fhead"; Some fhead;
   Some "--fprod"; Some fprod;
   Some "--ftail"; Some ftail;
   Some "--vhead"; Some vhead;
   Some "--vprod"; Some vprod;
   Some "--vtail"; Some vtail] ++ map Some sources.

Definition create_enum_source (w : World) (args : Args)
    (fhead fprod ftail vhead vprod vtail : string) : M string :=
  try_except
    (b ← path_isdir (source_dir args); assert_ (bool_decide (b = true)))
    AssertionError
    (print "Argument given to --source-dir is not a directory." ;; sys_exit (-1)) ;;
  let sources := resolved_sources w args in
  let bash_command := bash_command w sources fhead fprod ftail vhead vprod vtail in
  process ← Popen w bash_command;
  '(output, error) ← communicate process;
  match error with
  | Some _ => raise TypeError      (* [raise] of something that is no exception *)
  | None => decode_utf8 output
  end.

Definition include_line (s : string) : string :=
  "#include " ++ dq ++ s ++ dq ++ nl.

Definition get_template_sections (args : Args)
    : string * string * string * string * string * string :=
  let fhead := EmptyString in
  let fprod := EmptyString in
  let ftail := EmptyString in
  let vhead := EmptyString in
  let vprod := EmptyString in
  let vtail := EmptyString in
  (* File-header section *)
  let fhead := fold_left (λ fhead s, fhead ++ include_line s) (sources args) fhead in
  let fhead := fhead ++ "
        #define C_ENUM(v) ((gint) v)
        #define C_FLAGS(v) ((gint) v)
    " in
  (* File-production section *)
  let fprod := fprod ++ nl ++ "/* enumerations from " ++ dq ++ "@basename@" ++ dq ++ " */" ++ nl in
  (* Value-header section *)
  let vhead := "
        GType
        @enum_name@_get_type (void)
            {
                static GType etype = 0;
                if (etype == 0) {
                    static const G@Type@Value values[] = {
    " in
  (* Value-production section *)
  let vprod := vprod ++ nl ++ "{ @VALUENAME@, " ++ dq ++ "@VALUENAME@" ++ dq ++ ", "
                     ++ dq ++ "@valuenick@" ++ dq ++ " }," ++ nl in
  (* Value-tail section *)
  let vtail := vtail ++ "
            { 0, NULL, NULL }
        };
        etype = g_@type@_register_static (" ++ dq ++ "@EnumName@" ++ dq ++ ", values);
      }
      return etype;
    }
    " in
  (* File-tail section *)
  let ftail := ftail ++ "G_END_DECLS" in
  (fhead, fprod, ftail, vhead, vprod, vtail).

Definition write_enum_source_file (w : World) (args : Args) (output : string) : M unit :=
  match out_dir args with
  | Some dirs =>
      try_except
        (for_in dirs (λ out_path,
           b ← path_isdir (Some out_path); assert_ (bool_decide (b = true))))
        AssertionError
        (print "One (or more) of the argument(s) given to --out-dir is not a directory." ;;
         sys_exit (-1)) ;;
      for_in dirs (λ out_path,
        write_file (posixpath.join out_path (output_file args)) output)
  | None =>
      write_file (posixpath.join (get_script_path w) (output_file args)) output
  end.

(** The loop of the main block over [args.replace]. *)
Fixpoint replace_loop (w : World) (pairs : list (string * string)) (output : string)
    : M string :=
  match pairs with
  | [] => mret output
  | regex_tuple :: rest =>
      output ← try_except
                 (match re_sub w regex_tuple.1 regex_tuple.2 output with
                  | Some output' => mret output'
                  | None => raise re_error
                  end)
                 re_error
                 (sys_exit (-1));
      replace_loop w rest output
  end.

Definition post_process (w : World) (args : Args) (output : string) : M string :=
  match replace args with
  | Some pairs => replace_loop w pairs output
  | None => mret output
  end.

(** The [if __name__ == '__main__'] block, from the parsed arguments on. *)
Definition main (w : World) (args : Args) : M unit :=
  let '(fhead, fprod, ftail, vhead, vprod, vtail) := get_template_sections args in
  output ← create_enum_source w args fhead fprod ftail vhead vprod vtail;
  output ← post_process w args output;
  write_enum_source_file w args output.

(** What the operating system sees when the interpreter is done: an uncaught
    exception prints a traceback on standard error and gives status 1;
    [sys.exit(n)] gives [n] modulo 256 and prints nothing. *)
Record Exit := mkExit {
  exit_status : Z;
  traceback : option exn
}.

Definition interpreter_exit {A} (o : outcome A) : Exit :=
  match o with
  | Returned _ => mkExit 0 None
  | Raised e => mkExit 1 (Some e)
  | SysExit code => mkExit (code mod 256) None
  end.

(** ** The stages, as functions

    What the stages of the script compute, written without the monad; the
    lemmas of the second part relate them to the script. *)

(** The argument vector, when the program was found. *)
Definition argv_of (exe : string) (sources : list string)
    (fhead fprod ftail vhead vprod vtail : string) : list string :=
  [exe; "--fhead"; fhead; "--fprod"; fprod; "--ftail"; ftail;
   "--vhead"; vhead; "--vprod"; vprod; "--vtail"; vtail] ++ sources.

(** What [decode] makes of the captured output. *)
Definition decoded (out : list byte) : outcome string :=
  if utf8_valid out then Returned (string_of_list_byte out)
  else Raised UnicodeDecodeError.

(** What [communicate] and [decode] make of a child spawned in [st]. *)
Definition captured (p : Process) (st : state) : outcome string * state :=
  match p with
  | CaptureFails => (Raised OSError, st)
  | Exits _ out err => (decoded out, add_stderr st err)
  end.

(** The specification of the post-processor: the pairs applied from left to
    right, each to the result of the one before it; [None] as soon as one of
    them is refused by the regex engine. *)
Definition sequential_substitution (w : World) (pairs : list (string * string))
    (text : string) : option string :=
  fold_left (λ acc pair, text ← acc; re_sub w pair.1 pair.2 text) pairs (Some text).

(** Whether [open(p, 'w+')] succeeds. *)
Definition writable (fs : FS) (p : string) : bool :=
  negb (String.eqb p EmptyString || posixpath.endswith_sep p)
  && negb (isdir fs p)
  && (String.eqb (posixpath.dirname p) EmptyString || isdir fs (posixpath.dirname p)).

(** Writing [text] to the paths [ps] in turn, up to the first that cannot be
    opened; a text that cannot be encoded stops the writing at the first
    path, whose file is left empty. Of [fs] only the names, the directories
    and the encoding are used, the regular files are [files]. *)
Fixpoint write_all (fs : FS) (ps : list string) (text : string)
    (files : gmap string string) : outcome unit * gmap string string :=
  match ps with
  | [] => (Returned tt, files)
  | p :: ps' =>
      if writable fs p then
        if fs_encodable fs text
        then write_all fs ps' text (<[fs_resolve fs p := text]> files)
        else (Raised UnicodeEncodeError, <[fs_resolve fs p := EmptyString]> files)
      else (Raised OSError, files)
  end.

(** The files the writer is to produce. *)
Definition targets (w : World) (args : Args) : list string :=
  match out_dir args with
  | Some dirs => map (λ out_path, posixpath.join out_path (output_file args)) dirs
  | None => [posixpath.join (get_script_path w) (output_file args)]
  end.

Definition out_dirs_valid (fs : FS) (args : Args) : bool :=
  match out_dir args with
  | Some dirs => forallb (isdir fs) dirs
  | None => true
  end.

Definition out_dir_message : string :=
  "One (or more) of the argument(s) given to --out-dir is not a directory.".

Definition source_dir_message : string :=
  "Argument given to --source-dir is not a directory.".

(** The generation stage: the templates handed to [create_enum_source]. *)
Definition generate (w : World) (args : Args) : M string :=
  let '(fhead, fprod, ftail, vhead, vprod, vtail) := get_template_sections args in
  create_enum_source w args fhead fprod ftail vhead vprod vtail.

(** The argument vector of the child, [exe] being the program found. *)
Definition argv_for (w : World) (args : Args) (exe : string) : list string :=
  let '(fhead, fprod, ftail, vhead, vprod, vtail) := get_template_sections args in
  argv_of exe (resolved_sources w args) fhead fprod ftail vhead vprod vtail.

(** The file-header fragment of the six. *)
Definition file_header (args : Args) : string :=
  (get_template_sections args).1.1.1.1.1.

(** One [#include] line per source, in the order of the list. *)
Definition include_lines (srcs : list string) : string :=
  fold_right (λ s rest, include_line s ++ rest) EmptyString srcs.

(** The directive the specification asks for, character by character and
    without a helper of the script: [#include], a space, a double quote
    (code 34), the name as it was listed, a double quote, a newline
    (code 10). *)
Definition include_directive (name : string) : string :=
  "#include "
  ++ String "034"%char (name ++ String "034"%char (String "010"%char EmptyString)).

(** One directive per source, in the order of the list. *)
Definition include_directives (srcs : list string) : string :=
  fold_right (λ name rest, include_directive name ++ rest) EmptyString srcs.

(** The two fixed macro definitions, spelled out line by line. *)
Definition macro_definitions : string :=
  nl ++ "        #define C_ENUM(v) ((gint) v)"
  ++ nl ++ "        #define C_FLAGS(v) ((gint) v)"
  ++ nl ++ "    ".

(** ** What is seen of a run *)

(** The run ended by the script itself, with a failure status and something
    said on one of the two streams: no uncaught exception. *)
Definition explicit_failure (st : state) (r : outcome unit * state) : Prop :=
  traceback (interpreter_exit r.1) = None
  ∧ exit_status (interpreter_exit r.1) ≠ 0
  ∧ (st_stdout r.2 ≠ st_stdout st ∨ st_stderr r.2 ≠ st_stderr st).





(** Two worlds that a run with [args] cannot tell apart: the script sits in
    the same place, [which] finds the same program, that program behaves the
    same on the command line of this run, and the regex engine is the
    same. *)
Definition same_inputs (w1 w2 : World) (args : Args) : Prop :=
  argv0_realpath w1 = argv0_realpath w2
  ∧ which w1 "glib-mkenums" = which w2 "glib-mkenums"
  ∧ (∀ exe, which w1 "glib-mkenums" = Some exe →
            execute w1 (argv_for w1 args exe) = execute w2 (argv_for w1 args exe))
  ∧ (∀ p r text, re_sub w1 p r text = re_sub w2 p r text).

(** ** A small world to run the script in

    Its regex engine knows the literal fragment only: a pattern of letters,
    digits and underscores, non-empty, matched as it stands, and a replacement
    without backslashes, inserted as it stands. Whatever else it is given it
    refuses, as Python does for an unbalanced parenthesis. *)

Module Demo.

Definition word_char (c : ascii) : bool :=
  let n := N_of_ascii c in
  (((48 <=? n) && (n <=? 57)) || ((65 <=? n) && (n <=? 90))
   || ((97 <=? n) && (n <=? 122)) || (n =? 95))%N.

Fixpoint all_chars (f : ascii → bool) (s : string) : bool :=
  match s with
  | EmptyString => true
  | String c r => f c && all_chars f r
  end.

(** Replace the occurrences of [pat], leftmost first and not overlapping;
    [skip] counts the characters of a match still to be dropped. *)
Fixpoint literal_replace (pat repl : string) (skip : nat) (text : string) : string :=
  match text with
  | EmptyString => EmptyString
  | String c r =>
      match skip with
      | S k => literal_replace pat repl k r
      | O =>
          if String.prefix pat text
          then repl ++ literal_replace pat repl (String.length pat - 1) r
          else String c (literal_replace pat repl O r)
      end
  end.

Definition literal_re_sub (pattern repl text : string) : option string :=
  if negb (String.eqb pattern EmptyString) && all_chars word_char pattern
     && all_chars (λ c, negb (Ascii.eqb c "\"%char)) repl
  then Some (literal_replace pattern repl O text)
  else None.

(** A generator that prints [out], complains with [err] and leaves with
    [status], whatever it is asked. *)
Definition world (tool : option string) (status : Z) (out : list byte)
    (err : list string) : World :=
  {| argv0_realpath := "/src/scripts/generate_enum_source.py";
     which := λ name, if String.eqb name "glib-mkenums" then tool else None;
     execute := λ _, Some (Exits status out err);
     re_sub := literal_re_sub |}.

Definition mkenums : option string := Some "/usr/bin/glib-mkenums".

(** The components of a path, [cur] being the one under way. *)
Fixpoint components (s cur : string) : list string :=
  match s with
  | EmptyString => [cur]
  | String c r =>
      if posixpath.is_sep c then cur :: components r EmptyString
      else components r (cur ++ String c EmptyString)
  end.

(** Names without links: spellings that differ in repeated separators, in
    components [.] or in a separator at the end name the same place. *)
Definition normalise (p : string) : string :=
  let kept := filter (λ c, c ≠ EmptyString ∧ c ≠ ".") (components p EmptyString) in
  (if posixpath.startswith_sep p then "/" else EmptyString) ++ String.concat "/" kept.

(** Text files are opened as UTF-8: what is no well-formed UTF-8 (a lone
    surrogate that came in through the command line) cannot be written. *)
Definition utf8_text (text : string) : bool :=
  utf8_valid (list_byte_of_string text).

Definition fs0 : FS :=
  mkFS normalise utf8_text {[ "/"; "/src"; "/src/scripts"; "/build" ]} ∅.

Definition st0 : state := mkState fs0 [] [] [].

Definition args0 : Args :=
  {| output_file := "enums.c";
     sources := ["a.h"];
     replace := None;
     source_dir := Some "/src";
     out_dir := Some ["/build"] |}.

Definition args_without_source_dir : Args :=
  {| output_file := "enums.c";
     sources := ["a.h"];
     replace := None;
     source_dir := None;
     out_dir := Some ["/build"] |}.

Definition args_with_bad_out_dir : Args :=
  {| output_file := "enums.c";
     sources := ["a.h"];
     replace := None;
     source_dir := Some "/src";
     out_dir := Some ["/build"; "/nowhere"] |}.

Definition args_with_bad_pattern : Args :=
  {| output_file := "enums.c";
     sources := ["a.h"];
     replace := Some [("GTypeFoo", "GTypeBar"); ("(", "x")];
     source_dir := Some "/src";
     out_dir := Some ["/build"] |}.


(** A second world: [which] knows the program under every name, and an
    empty command cannot be executed. On the command line of a run the two
    worlds do the same. *)
Definition other_world (status : Z) (out : list byte) (err : list string) : World :=
  {| argv0_realpath := "/src/scripts/generate_enum_source.py";
     which := λ _, mkenums;
     execute := λ argv, match argv with [] => None | _ => Some (Exits status out err) end;
     re_sub := literal_re_sub |}.

End Demo.

(** ** More of the same, for the runs that go further *)

(** Two children alike in all but their exit status. *)
Definition same_but_status (p q : option Process) : Prop :=
  match p, q with
  | None, None => True
  | Some CaptureFails, Some CaptureFails => True
  | Some (Exits _ out err), Some (Exits _ out' err') => out = out' ∧ err = err'
  | _, _ => False
  end.

(** The bytes of plain ASCII text. *)
Definition ascii_only (bs : list byte) : Prop :=
  Forall (λ b, byte_in 0x00 0x7F b = true) bs.


Module Cases.

(** A world whose program, once found, does as [child] says. *)
Definition world_with (child : option Process) : World :=
  {| argv0_realpath := "/src/scripts/generate_enum_source.py";
     which := λ name, if String.eqb name "glib-mkenums" then Demo.mkenums else None;
     execute := λ _, child;
     re_sub := Demo.literal_re_sub |}.


(** An output file and a source given as absolute paths. *)
Definition args_absolute : Args :=
  {| output_file := "/build/enums.c";
     sources := ["/usr/include/a.h"];
     replace := None;
     source_dir := Some "/src";
     out_dir := Some ["/src"; "/src/scripts"] |}.

Definition args_renaming : Args :=
  {| output_file := "enums.c";
     sources := ["a.h"; "b.h"];
     replace := Some [("GTypeFoo", "GTypeBar")];
     source_dir := Some "/src";
     out_dir := Some ["/build"; "/src/scripts"] |}.

End Cases.

(** * Properties *)

(** ** Paths *)

Example join_examples :
  posixpath.join "/src" "a.h" = "/src/a.h"
  ∧ posixpath.join "/src/" "a.h" = "/src/a.h"
  ∧ posixpath.join "/src" "/usr/include/a.h" = "/usr/include/a.h"
  ∧ posixpath.join "/src" "sub/a.h" = "/src/sub/a.h"
  ∧ posixpath.join EmptyString "a.h" = "a.h".
Proof. repeat split. Qed.

Example dirname_examples :
  posixpath.dirname "/src/scripts/generate_enum_source.py" = "/src/scripts"
  ∧ posixpath.dirname "/a.py" = "/"
  ∧ posixpath.dirname "a.py" = EmptyString
  ∧ posixpath.dirname "/a//b" = "/a"
  ∧ posixpath.dirname "//a" = "//"
  ∧ posixpath.dirname "/a/b/" = "/a/b".
Proof. repeat split. Qed.

(** ** How the stages compute *)

Ltac unfold_M := unfold mbind, M_bind, mret, M_ret, raise, sys_exit, print in *.

Lemma mapM_id_Some {A} (l : list A) : mapM id (map Some l) = Some l.
Proof. induction l as [|a l IH]; [done|]. cbn. by rewrite IH. Qed.

Lemma bash_command_argv w srcs fhead fprod ftail vhead vprod vtail :
  mapM id (bash_command w srcs fhead fprod ftail vhead vprod vtail) =
  match which w "glib-mkenums" with
  | Some exe => Some (argv_of exe srcs fhead fprod ftail vhead vprod vtail)
  | None => None
  end.
Proof.
  unfold bash_command, argv_of.
  destruct (which w "glib-mkenums") as [exe|]; [|done].
  exact (mapM_id_Some (argv_of exe srcs fhead fprod ftail vhead vprod vtail)).
Qed.

Lemma create_enum_source_eq w args fhead fprod ftail vhead vprod vtail st :
  create_enum_source w args fhead fprod ftail vhead vprod vtail st =
  match source_dir args with
  | None => (Raised TypeError, st)
  | Some d =>
      if isdir (st_fs st) d then
        match which w "glib-mkenums" with
        | None => (Raised TypeError, st)
        | Some exe =>
            let argv := argv_of exe (resolved_sources w args)
                          fhead fprod ftail vhead vprod vtail in
            match execute w argv with
            | None => (Raised OSError, st)
            | Some p => captured p (add_spawned st argv)
            end
        end
      else (SysExit (-1),
            add_line st "Argument given to --source-dir is not a directory.")
  end.
Proof.
  unfold create_enum_source, try_except, path_isdir, assert_, Popen, communicate,
    decode_utf8, captured, decoded.
  unfold_M.
  destruct (source_dir args) as [d|]; [|done].
  destruct (isdir (st_fs st) d); cbn [bool_decide decide_rel]; [|done].
  rewrite bool_decide_eq_true_2 by done.
  rewrite bash_command_argv.
  destruct (which w "glib-mkenums") as [exe|]; [|done].
  destruct (execute w _) as [[|rc out err]|]; [done| |done].
  by destruct (utf8_valid out).
Qed.

Lemma fold_left_refused w pairs :
  fold_left (λ acc pair, text ← acc; re_sub w pair.1 pair.2 text) pairs None = None.
Proof. induction pairs as [|pair pairs IH]; [done|]. exact IH. Qed.

Lemma replace_loop_cons w p r pairs output st :
  replace_loop w ((p, r) :: pairs) output st =
  match re_sub w p r output with
  | Some output' => replace_loop w pairs output' st
  | None => (SysExit (-1), st)
  end.
Proof.
  cbn [replace_loop fst snd]. unfold try_except. unfold_M.
  by destruct (re_sub w p r output).
Qed.

Lemma replace_loop_eq w pairs output st :
  replace_loop w pairs output st =
  (match sequential_substitution w pairs output with
   | Some text => Returned text
   | None => SysExit (-1)
   end, st).
Proof.
  revert output. induction pairs as [|[p r] pairs IH]; intros output; [done|].
  rewrite replace_loop_cons. unfold sequential_substitution.
  cbn [fold_left fst snd]. change (Some output ≫= ?f) with (f output). cbn beta.
  destruct (re_sub w p r output) as [output'|].
  - apply IH.
  - by rewrite fold_left_refused.
Qed.

(** The validation loop of the writer stops at the first entry that is no
    directory and touches nothing. *)
Lemma check_out_dirs_eq dirs st :
  for_in dirs (λ out_path,
    b ← path_isdir (Some out_path); assert_ (bool_decide (b = true))) st =
  (if forallb (isdir (st_fs st)) dirs then Returned tt else Raised AssertionError, st).
Proof.
  induction dirs as [|d dirs IH]; [done|].
  cbn [for_in forallb]. unfold path_isdir, assert_ in *. unfold_M.
  destruct (isdir (st_fs st) d); [|done].
  rewrite bool_decide_eq_true_2 by done. exact IH.
Qed.

Lemma set_files_id st : set_files st (fs_files (st_fs st)) = st.
Proof. by destruct st as [[R E D files] out err spawned]. Qed.

Lemma same_places_refl fs : same_places fs fs.
Proof. by repeat split. Qed.

Lemma same_places_set_files st files : same_places (st_fs st) (st_fs (set_files st files)).
Proof. by repeat split. Qed.

Lemma isdir_same_places fs fs' p : same_places fs fs' → isdir fs' p = isdir fs p.
Proof. intros (HR & _ & HD). unfold isdir. by rewrite HR, HD. Qed.

Lemma writable_same_places fs fs' p : same_places fs fs' → writable fs' p = writable fs p.
Proof. intros H. unfold writable. by rewrite !(isdir_same_places fs fs' _ H). Qed.

Lemma write_all_same_places fs fs' ps text files :
  same_places fs fs' → write_all fs' ps text files = write_all fs ps text files.
Proof.
  intros H. revert files. induction ps as [|p ps IH]; intros files; [done|].
  cbn [write_all]. rewrite (writable_same_places fs fs' p H).
  destruct H as (HR & HE & _). rewrite HR, HE.
  destruct (writable fs p); [|done].
  destruct (fs_encodable fs text); [apply IH | done].
Qed.

Lemma write_file_eq p text st :
  write_file p text st =
  if writable (st_fs st) p then
    if fs_encodable (st_fs st) text
    then (Returned tt,
          set_files st (<[fs_resolve (st_fs st) p := text]> (fs_files (st_fs st))))
    else (Raised UnicodeEncodeError,
          set_files st (<[fs_resolve (st_fs st) p := EmptyString]> (fs_files (st_fs st))))
  else (Raised OSError, st).
Proof.
  unfold write_file, writable.
  destruct (String.eqb p EmptyString || posixpath.endswith_sep p); [done|].
  destruct (isdir (st_fs st) p); [done|].
  destruct (String.eqb _ _); [done|].
  by destruct (isdir (st_fs st) (posixpath.dirname p)).
Qed.

Lemma for_in_write_eq {A} (g : A → string) xs text st :
  for_in xs (λ x, write_file (g x) text) st =
  let r := write_all (st_fs st) (map g xs) text (fs_files (st_fs st)) in
  (r.1, set_files st r.2).
Proof.
  revert st. induction xs as [|x xs IH]; intros st.
  - cbn. by rewrite set_files_id.
  - cbn [for_in map write_all]. unfold_M. rewrite write_file_eq.
    destruct (writable _ (g x)); [|cbn; by rewrite set_files_id].
    destruct (fs_encodable _ text); [|done].
    rewrite IH.
    rewrite (write_all_same_places (st_fs st) _ _ _ _ (same_places_set_files st _)).
    by destruct st as [[R E D files] out err spawned].
Qed.

Lemma write_enum_source_file_eq w args output st :
  write_enum_source_file w args output st =
  if out_dirs_valid (st_fs st) args then
    let r := write_all (st_fs st) (targets w args) output (fs_files (st_fs st)) in
    (r.1, set_files st r.2)
  else (SysExit (-1), add_line st out_dir_message).
Proof.
  unfold write_enum_source_file, out_dirs_valid, targets.
  destruct (out_dir args) as [dirs|].
  - unfold try_except. unfold_M. rewrite check_out_dirs_eq.
    destruct (forallb _ dirs); [|done].
    apply for_in_write_eq.
  - rewrite write_file_eq. cbn [write_all].
    destruct (writable _ _); [|cbn; by rewrite set_files_id].
    by destruct (fs_encodable _ output).
Qed.

Lemma generate_eq w args st :
  generate w args st =
  match source_dir args with
  | None => (Raised TypeError, st)
  | Some d =>
      if isdir (st_fs st) d then
        match which w "glib-mkenums" with
        | None => (Raised TypeError, st)
        | Some exe =>
            match execute w (argv_for w args exe) with
            | None => (Raised OSError, st)
            | Some p => captured p (add_spawned st (argv_for w args exe))
            end
        end
      else (SysExit (-1), add_line st source_dir_message)
  end.
Proof.
  unfold generate, argv_for.
  destruct (get_template_sections args) as [[[[[fhead fprod] ftail] vhead] vprod] vtail].
  apply create_enum_source_eq.
Qed.

Lemma post_process_eq w args output st :
  post_process w args output st =
  (match sequential_substitution w (default [] (replace args)) output with
   | Some text => Returned text
   | None => SysExit (-1)
   end, st).
Proof.
  unfold post_process. destruct (replace args) as [pairs|]; [|done].
  apply replace_loop_eq.
Qed.

Lemma main_eq w args st :
  main w args st =
  match generate w args st with
  | (Returned text, st1) =>
      match sequential_substitution w (default [] (replace args)) text with
      | Some text' => write_enum_source_file w args text' st1
      | None => (SysExit (-1), st1)
      end
  | (Raised e, st1) => (Raised e, st1)
  | (SysExit c, st1) => (SysExit c, st1)
  end.
Proof.
  unfold main, generate.
  destruct (get_template_sections args) as [[[[[fhead fprod] ftail] vhead] vprod] vtail].
  unfold_M.
  destruct (create_enum_source _ _ _ _ _ _ _ _ _) as [[text|e|c] st1]; [|done..].
  rewrite post_process_eq.
  by destruct (sequential_substitution _ _ _).
Qed.

(** *** What each stage reads from and leaves in the file system *)

Lemma captured_fs p st : st_fs (captured p st).2 = st_fs st.
Proof. by destruct p. Qed.

Lemma captured_outcome p st st' : (captured p st').1 = (captured p st).1.
Proof. by destruct p. Qed.

Lemma generate_fs w args st : st_fs (generate w args st).2 = st_fs st.
Proof.
  rewrite generate_eq.
  destruct (source_dir args) as [d|]; [|done].
  destruct (isdir _ d); [|done].
  destruct (which w _) as [exe|]; [|done].
  destruct (execute w _) as [p|]; [|done].
  by rewrite captured_fs.
Qed.

Lemma generate_outcome w args st st' :
  same_places (st_fs st) (st_fs st') →
  (generate w args st').1 = (generate w args st).1.
Proof.
  intros HD. rewrite !generate_eq.
  destruct (source_dir args) as [d|]; [|done].
  rewrite (isdir_same_places _ _ d HD).
  destruct (isdir _ d); [|done].
  destruct (which w _) as [exe|]; [|done].
  destruct (execute w _) as [p|]; [|done].
  apply captured_outcome.
Qed.

Lemma write_all_outcome fs ps text m m' :
  (write_all fs ps text m').1 = (write_all fs ps text m).1.
Proof.
  revert m m'. induction ps as [|p ps IH]; intros m m'; [done|].
  cbn [write_all]. destruct (writable fs p); [|done].
  destruct (fs_encodable fs text); [apply IH | done].
Qed.

Lemma write_all_keeps fs ps text (m : gmap string string) k :
  fs_encodable fs text = true →
  m !! k = Some text → (write_all fs ps text m).2 !! k = Some text.
Proof.
  intros HE. revert m. induction ps as [|q ps IH]; intros m Hk; [done|].
  cbn [write_all]. rewrite HE. destruct (writable fs q); [|done].
  apply IH. rewrite lookup_insert. by case_decide.
Qed.

(** Writing the same text to the same places a second time changes nothing. *)
Lemma write_all_again fs ps text (m : gmap string string) :
  (write_all fs ps text (write_all fs ps text m).2).2 = (write_all fs ps text m).2.
Proof.
  destruct (fs_encodable fs text) eqn:HE.
  - revert m. induction ps as [|p ps IH]; intros m; [done|].
    cbn [write_all]. rewrite HE. destruct (writable fs p) eqn:Hw; [|done].
    rewrite (insert_id (write_all fs ps text (<[fs_resolve fs p := text]> m)).2
               (fs_resolve fs p) text).
    + apply IH.
    + by apply write_all_keeps, lookup_insert_eq.
  - destruct ps as [|p ps]; [done|].
    cbn [write_all]. rewrite HE. destruct (writable fs p); [|done].
    cbn [snd]. apply insert_insert_eq.
Qed.

Lemma out_dirs_valid_same_places fs fs' args :
  same_places fs fs' → out_dirs_valid fs' args = out_dirs_valid fs args.
Proof.
  intros H. unfold out_dirs_valid. destruct (out_dir args) as [dirs|]; [|done].
  induction dirs as [|d dirs IH]; [done|].
  cbn [forallb]. by rewrite IH, (isdir_same_places fs fs' d H).
Qed.

Lemma writer_outcome w args text st st' :
  same_places (st_fs st) (st_fs st') →
  (write_enum_source_file w args text st').1 = (write_enum_source_file w args text st).1.
Proof.
  intros HD. rewrite !write_enum_source_file_eq.
  rewrite (out_dirs_valid_same_places _ _ args HD).
  destruct (out_dirs_valid _ _); [|done]. cbn [fst].
  rewrite (write_all_same_places _ _ _ _ _ HD). apply write_all_outcome.
Qed.

Lemma writer_places w args text st :
  same_places (st_fs st) (st_fs (write_enum_source_file w args text st).2).
Proof.
  rewrite write_enum_source_file_eq.
  destruct (out_dirs_valid _ _); [apply same_places_set_files | apply same_places_refl].
Qed.

Lemma writer_again w args text st st' :
  st_fs st' = st_fs (write_enum_source_file w args text st).2 →
  st_fs (write_enum_source_file w args text st').2 = st_fs st'.
Proof.
  intros H.
  assert (HD : same_places (st_fs st) (st_fs st'))
    by (rewrite H; apply writer_places).
  rewrite write_enum_source_file_eq in H |- *.
  rewrite (out_dirs_valid_same_places _ _ args HD).
  destruct (out_dirs_valid (st_fs st) args); [|done].
  cbn [snd set_files st_fs] in *.
  rewrite (write_all_same_places _ _ _ _ _ HD).
  rewrite H at 2. rewrite H. cbn [fs_resolve fs_encodable fs_dirs fs_files].
  by rewrite write_all_again.
Qed.

(** ** The template builder *)

Lemma string_app_assoc (a b c : string) : (a ++ b) ++ c = a ++ (b ++ c).
Proof.
  induction a as [|x a IH]; [done|].
  change (String x ((a ++ b) ++ c) = String x (a ++ (b ++ c))). by rewrite IH.
Qed.

Lemma string_app_empty (a : string) : a ++ EmptyString = a.
Proof.
  induction a as [|x a IH]; [done|].
  change (String x (a ++ EmptyString) = String x a). by rewrite IH.
Qed.

Lemma fold_left_include_lines srcs acc :
  fold_left (λ fhead s, fhead ++ include_line s) srcs acc = acc ++ include_lines srcs.
Proof.
  revert acc. induction srcs as [|s srcs IH]; intros acc.
  - cbn. by rewrite string_app_empty.
  - cbn [fold_left include_lines fold_right]. rewrite IH. apply string_app_assoc.
Qed.

Lemma include_line_directive s : include_line s = include_directive s.
Proof. reflexivity. Qed.

Lemma include_lines_directives srcs : include_lines srcs = include_directives srcs.
Proof.
  induction srcs as [|s srcs IH]; [done|].
  change (include_line s ++ include_lines srcs
          = include_directive s ++ include_directives srcs).
  by rewrite IH, include_line_directive.
Qed.

(** C8. The file header is one [#include "<name>"] line per listed source, in
    input order, each made of [#include], a space, the name between double
    quotes and a newline, followed by the two fixed macro definitions; for
    the source list [a.h] it is the line [#include "a.h"] followed by those
    definitions. *)
Theorem file_header_includes_then_macros :
  (∀ args, file_header args = include_directives (sources args) ++ macro_definitions)
  ∧ (∀ f r sd od,
       file_header (mkArgs f ["a.h"] r sd od) =
       "#include "
       ++ String "034"%char ("a.h" ++ String "034"%char (String "010"%char macro_definitions))).
Proof.
  assert (H : ∀ args,
    file_header args = include_directives (sources args) ++ macro_definitions).
  { intros args. unfold file_header, get_template_sections. cbn [fst].
    rewrite fold_left_include_lines, include_lines_directives. reflexivity. }
  split; [exact H|].
  intros f r sd od. rewrite H. reflexivity.
Qed.

(** Two sources, one of them with a quote in its name: the names go in as
    they are, in the order of the list. *)
Example file_header_of_two :
  file_header (mkArgs "enums.c" ["gdata/b.h"; "a" ++ dq ++ ".h"] None None None)
  = "#include " ++ String "034"%char ("gdata/b.h" ++ String "034"%char (String "010"%char
    ("#include " ++ String "034"%char ("a" ++ String "034"%char (".h"
       ++ String "034"%char (String "010"%char macro_definitions)))))).
Proof. reflexivity. Qed.

(** ** The post-processor *)

(** C4. The post-processed text is the sequential application of the
    replacement pairs, leftmost first, each to the result of the one before
    it (the run leaves with [sys.exit(-1)] where a pair is refused), and an
    absent or empty list leaves the text as it is. *)
Theorem post_process_is_sequential_substitution :
  (∀ w args output st,
     post_process w args output st =
     (match sequential_substitution w (default [] (replace args)) output with
      | Some text => Returned text
      | None => SysExit (-1)
      end, st))
  ∧ (∀ w p r pairs output,
       sequential_substitution w ((p, r) :: pairs) output =
       output' ← re_sub w p r output; sequential_substitution w pairs output')
  ∧ (∀ w f s sd od output st,
       post_process w (mkArgs f s None sd od) output st = (Returned output, st)
       ∧ post_process w (mkArgs f s (Some []) sd od) output st = (Returned output, st)).
Proof.
  split; [exact post_process_eq|]. split.
  - intros w p r pairs output. unfold sequential_substitution.
    cbn [fold_left fst snd]. change (Some output ≫= ?f) with (f output). cbn beta.
    destruct (re_sub w p r output); [done|]. apply fold_left_refused.
  - intros. by rewrite !post_process_eq.
Qed.

(** The order matters: renaming [GTypeFoo] to [GTypeBar] and then [GTypeBar]
    to [GTypeBaz] lands on [GTypeBaz]; the other way round it stops at
    [GTypeBar]. *)
Example substitution_order :
  sequential_substitution (Demo.world Demo.mkenums 0 [] [])
    [("GTypeFoo", "GTypeBar"); ("GTypeBar", "GTypeBaz")] "x = GTypeFoo;"
  = Some "x = GTypeBaz;"
  ∧ sequential_substitution (Demo.world Demo.mkenums 0 [] [])
      [("GTypeBar", "GTypeBaz"); ("GTypeFoo", "GTypeBar")] "x = GTypeFoo;"
    = Some "x = GTypeBar;".
Proof. split; reflexivity. Qed.

(** ** The generator invoker *)

Lemma captured_not_exit p st c st' : captured p st ≠ (SysExit c, st').
Proof. destruct p as [|rc out err]; [done|]. unfold captured, decoded. by destruct (utf8_valid out). Qed.

(** The only [sys.exit] of the generation stage is the one for a source
    directory that was given and is no directory. *)
Lemma generate_exit w args st c st' :
  generate w args st = (SysExit c, st') →
  c = -1 ∧ st' = add_line st source_dir_message
  ∧ ∃ d, source_dir args = Some d ∧ isdir (st_fs st) d = false.
Proof.
  rewrite generate_eq.
  destruct (source_dir args) as [d|]; [|done].
  destruct (isdir _ d) eqn:Hd.
  - destruct (which w _) as [exe|]; [|done].
    destruct (execute w _) as [p|]; [|done].
    intros H. by apply captured_not_exit in H.
  - intros [= <- <-]. eauto.
Qed.

(** C1 (what the code does). With [--source-dir] omitted the run does not
    reach the join with the directory of the script: [path.isdir(None)]
    raises [TypeError], which the handler for [AssertionError] does not
    catch, and the run ends there, nothing spawned and nothing written. *)
Theorem omitted_source_dir_raises_TypeError w args st :
  source_dir args = None → main w args st = (Raised TypeError, st).
Proof.
  intros H. rewrite main_eq, generate_eq. by rewrite H.
Qed.

Lemma omitted_source_dir_raises_TypeError_witness :
  source_dir Demo.args_without_source_dir = None
  ∧ main (Demo.world Demo.mkenums 0 [] []) Demo.args_without_source_dir Demo.st0
    = (Raised TypeError, Demo.st0).
Proof.
  split; [reflexivity|].
  apply (omitted_source_dir_raises_TypeError
           (Demo.world Demo.mkenums 0 [] []) Demo.args_without_source_dir Demo.st0).
  reflexivity.
Defined.

Lemma main_no_tool w args st :
  which w "glib-mkenums" = None →
  main w args st =
  match source_dir args with
  | None => (Raised TypeError, st)
  | Some d =>
      if isdir (st_fs st) d then (Raised TypeError, st)
      else (SysExit (-1), add_line st source_dir_message)
  end.
Proof.
  intros H. rewrite main_eq, generate_eq, H.
  destruct (source_dir args) as [d|]; [|done].
  by destruct (isdir _ d).
Qed.

(** C2 (as stated, refuted). The program is not on the search path and the
    source directory is fine: the run ends with an uncaught [TypeError], not
    with a failure the script reports. *)
Lemma missing_tool_is_not_reported :
  which (Demo.world None 0 [] []) "glib-mkenums" = None
  ∧ main (Demo.world None 0 [] []) Demo.args0 Demo.st0 = (Raised TypeError, Demo.st0)
  ∧ ¬ explicit_failure Demo.st0 (main (Demo.world None 0 [] []) Demo.args0 Demo.st0).
Proof.
  assert (H : main (Demo.world None 0 [] []) Demo.args0 Demo.st0
              = (Raised TypeError, Demo.st0)).
  { rewrite main_no_tool by reflexivity. reflexivity. }
  split; [reflexivity|]. split; [exact H|].
  rewrite H. intros [Htb _]. discriminate Htb.
Qed.

(** C2 (amended). When the program is not on the search path the run fails
    with a non-zero status before any process is spawned and without touching
    the file system; with a valid source directory the failure is the
    uncaught [TypeError] of [Popen], whose command starts with [None]. *)
Theorem missing_tool_fails_before_spawning w args st :
  which w "glib-mkenums" = None →
  (∀ u, (main w args st).1 ≠ Returned u)
  ∧ exit_status (interpreter_exit (main w args st).1) ≠ 0
  ∧ st_spawned (main w args st).2 = st_spawned st
  ∧ st_fs (main w args st).2 = st_fs st
  ∧ (∀ d, source_dir args = Some d → isdir (st_fs st) d = true →
       main w args st = (Raised TypeError, st)).
Proof.
  intros H. rewrite main_no_tool by done.
  destruct (source_dir args) as [d|]; [|by repeat split].
  destruct (isdir _ d) eqn:Hd.
  - by repeat split.
  - repeat split; try done. intros d' [= <-] Hd'. congruence.
Qed.

Lemma missing_tool_fails_before_spawning_witness :
  st_spawned (main (Demo.world None 0 [] []) Demo.args0 Demo.st0).2 = []
  ∧ st_fs (main (Demo.world None 0 [] []) Demo.args0 Demo.st0).2 = Demo.fs0.
Proof.
  pose proof (missing_tool_fails_before_spawning
                (Demo.world None 0 [] []) Demo.args0 Demo.st0 eq_refl)
    as (_ & _ & Hspawned & Hfs & _).
  split; [exact Hspawned | exact Hfs].
Defined.

Lemma returncode_is_ignored rc rc' out err st :
  captured (Exits rc out err) st = captured (Exits rc' out err) st.
Proof. reflexivity. Qed.

(** C3 (what the code does). A generator that leaves with status 1, having
    printed nothing but a complaint on standard error, is taken at its
    word: the run returns normally and writes the empty text. *)
Theorem failed_generator_is_accepted :
  let r := main (Demo.world Demo.mkenums 1 [] ["glib-mkenums: failed"])
             Demo.args0 Demo.st0 in
  r.1 = Returned tt
  ∧ exit_status (interpreter_exit r.1) = 0
  ∧ fs_files (st_fs r.2) !! "/build/enums.c" = Some EmptyString
  ∧ st_stdout r.2 = [].
Proof. vm_compute. repeat split. Qed.

(** ** Decoding *)

Example utf8_examples :
  utf8_valid [Byte.x47; Byte.xc3; Byte.xa9] = true        (* G, e acute *)
  ∧ utf8_valid [Byte.xe2; Byte.x82; Byte.xac] = true      (* euro sign *)
  ∧ utf8_valid [Byte.xf0; Byte.x9f; Byte.x98; Byte.x80] = true
  ∧ utf8_valid [Byte.xff] = false                         (* no start byte *)
  ∧ utf8_valid [Byte.xc0; Byte.x80] = false               (* overlong *)
  ∧ utf8_valid [Byte.xed; Byte.xa0; Byte.x80] = false     (* surrogate *)
  ∧ utf8_valid [Byte.xf4; Byte.x90; Byte.x80; Byte.x80] = false
  ∧ utf8_valid [Byte.xe2; Byte.x82] = false.              (* cut short *)
Proof. repeat split. Qed.

(** C10. The captured output is decoded strictly: whenever the generator ran
    and what it printed is not well-formed UTF-8, the run ends with an
    uncaught [UnicodeDecodeError], after the spawn and before any
    substitution or write. *)
Theorem invalid_utf8_output_raises w args st d exe rc out err :
  source_dir args = Some d →
  isdir (st_fs st) d = true →
  which w "glib-mkenums" = Some exe →
  execute w (argv_for w args exe) = Some (Exits rc out err) →
  utf8_valid out = false →
  main w args st =
  (Raised UnicodeDecodeError, add_stderr (add_spawned st (argv_for w args exe)) err)
  ∧ traceback (interpreter_exit (main w args st).1) = Some UnicodeDecodeError
  ∧ st_fs (main w args st).2 = st_fs st.
Proof.
  intros Hsd Hd Hw He Hu.
  assert (H : main w args st =
    (Raised UnicodeDecodeError, add_stderr (add_spawned st (argv_for w args exe)) err)).
  { rewrite main_eq, generate_eq, Hsd, Hd, Hw, He.
    unfold captured, decoded. by rewrite Hu. }
  by rewrite H.
Qed.

Lemma invalid_utf8_output_raises_witness :
  (main (Demo.world Demo.mkenums 0 [Byte.xff] []) Demo.args0 Demo.st0).1
  = Raised UnicodeDecodeError.
Proof.
  pose proof (invalid_utf8_output_raises
                (Demo.world Demo.mkenums 0 [Byte.xff] []) Demo.args0 Demo.st0
                "/src" "/usr/bin/glib-mkenums" 0 [Byte.xff] []
                eq_refl eq_refl eq_refl eq_refl eq_refl) as [H _].
  rewrite H. reflexivity.
Defined.

(** ** The writer *)

Lemma forallb_isdir_false fs (dirs : list string) d :
  d ∈ dirs → isdir fs d = false → forallb (isdir fs) dirs = false.
Proof.
  intros Hin Hd. induction Hin as [d dirs | d d' dirs Hin IH]; cbn [forallb].
  - by rewrite Hd.
  - rewrite IH by done. apply andb_false_r.
Qed.

Lemma out_dirs_invalid fs args dirs d :
  out_dir args = Some dirs → d ∈ dirs → isdir fs d = false →
  out_dirs_valid fs args = false.
Proof.
  intros Ho Hin Hd. unfold out_dirs_valid. rewrite Ho.
  by apply (forallb_isdir_false fs dirs d).
Qed.

(** Nothing but the writer touches the file system. *)
Lemma main_fs_unless_writing w args st :
  out_dirs_valid (st_fs st) args = false →
  st_fs (main w args st).2 = st_fs st ∧ ∀ u, (main w args st).1 ≠ Returned u.
Proof.
  intros Hv. rewrite main_eq.
  pose proof (generate_fs w args st) as Hfs.
  destruct (generate w args st) as [[text|e|c] st1]; cbn [snd] in Hfs; [|done..].
  destruct (sequential_substitution _ _ _) as [text'|]; [|done].
  rewrite write_enum_source_file_eq, Hfs, Hv. done.
Qed.

(** C5. If some entry of [--out-dir] is no directory, the writer leaves with
    the message about [--out-dir] and [sys.exit(-1)] before it opens any
    file: the file system is as it was, also for the valid entries of the
    list, and so it is at the end of the whole run, which does not
    succeed. *)
Theorem invalid_out_dir_writes_nothing w args st dirs d :
  out_dir args = Some dirs → d ∈ dirs → isdir (st_fs st) d = false →
  (∀ output,
     write_enum_source_file w args output st =
     (SysExit (-1), add_line st out_dir_message))
  ∧ st_fs (main w args st).2 = st_fs st
  ∧ (∀ u, (main w args st).1 ≠ Returned u)
  ∧ (∀ text st1 text',
       generate w args st = (Returned text, st1) →
       sequential_substitution w (default [] (replace args)) text = Some text' →
       main w args st = (SysExit (-1), add_line st1 out_dir_message)).
Proof.
  intros Ho Hin Hd.
  pose proof (out_dirs_invalid _ _ _ _ Ho Hin Hd) as Hv.
  split; [|split; [|split]].
  - intros output. by rewrite write_enum_source_file_eq, Hv.
  - by apply main_fs_unless_writing.
  - by apply main_fs_unless_writing.
  - intros text st1 text' Hg Hs. rewrite main_eq, Hg, Hs.
    rewrite write_enum_source_file_eq.
    pose proof (generate_fs w args st) as Hfs. rewrite Hg in Hfs. cbn [snd] in Hfs.
    by rewrite Hfs, Hv.
Qed.

Lemma invalid_out_dir_writes_nothing_witness :
  st_fs (main (Demo.world Demo.mkenums 0 [] []) Demo.args_with_bad_out_dir Demo.st0).2
  = Demo.fs0.
Proof.
  assert (Hin : "/nowhere" ∈ ["/build"; "/nowhere"]) by (right; left).
  pose proof (invalid_out_dir_writes_nothing
                (Demo.world Demo.mkenums 0 [] []) Demo.args_with_bad_out_dir Demo.st0
                ["/build"; "/nowhere"] "/nowhere" eq_refl Hin eq_refl)
    as (_ & H & _).
  exact H.
Defined.

(** ** Invalid patterns *)

Lemma refused_pattern w pairs p r :
  (p, r) ∈ pairs → (∀ r' text, re_sub w p r' text = None) →
  ∀ text, sequential_substitution w pairs text = None.
Proof.
  intros Hin Hbad.
  induction pairs as [|[q s] pairs IH]; [by apply elem_of_nil in Hin|].
  intros text. unfold sequential_substitution. cbn [fold_left fst snd].
  change (Some text ≫= ?f) with (f text). cbn beta.
  apply elem_of_cons in Hin as [[= <- <-]|Hin].
  - rewrite Hbad. apply fold_left_refused.
  - destruct (re_sub w q s text) as [text'|]; [by apply IH | apply fold_left_refused].
Qed.

Lemma generate_status w args st :
  (∀ u, (generate w args st).1 ≠ Returned u) →
  exit_status (interpreter_exit (generate w args st).1) ≠ 0.
Proof.
  destruct (generate w args st) as [[text|e|c] st1] eqn:Hg; cbn [fst].
  - intros H. by destruct (H text).
  - done.
  - intros _. apply generate_exit in Hg as [-> _]. done.
Qed.

(** C6. If some [--replace] pattern is no valid regular expression, the run
    fails with a non-zero status and writes no file; once the generation
    stage has delivered its text, it ends in the [sys.exit(-1)] of the
    handler for [re.error], with nothing printed. *)
Theorem invalid_pattern_exits_without_writing w args st pairs p r :
  replace args = Some pairs → (p, r) ∈ pairs →
  (∀ r' text, re_sub w p r' text = None) →
  st_fs (main w args st).2 = st_fs st
  ∧ (∀ u, (main w args st).1 ≠ Returned u)
  ∧ exit_status (interpreter_exit (main w args st).1) ≠ 0
  ∧ (∀ text st1,
       generate w args st = (Returned text, st1) →
       main w args st = (SysExit (-1), st1)).
Proof.
  intros Hr Hin Hbad.
  pose proof (refused_pattern w pairs p r Hin Hbad) as Hnone.
  pose proof (generate_fs w args st) as Hfs.
  rewrite main_eq, Hr. cbn [default].
  destruct (generate w args st) as [[text|e|c] st1] eqn:Hg; cbn [snd] in Hfs.
  - rewrite Hnone. repeat split; try done. by intros ? ? [= <- <-].
  - by repeat split.
  - apply generate_exit in Hg as (-> & _ & _). by repeat split.
Qed.

Lemma invalid_pattern_exits_without_writing_witness :
  main (Demo.world Demo.mkenums 0 [] []) Demo.args_with_bad_pattern Demo.st0
  = (SysExit (-1),
     add_stderr
       (add_spawned Demo.st0
          (argv_for (Demo.world Demo.mkenums 0 [] []) Demo.args_with_bad_pattern
             "/usr/bin/glib-mkenums")) []).
Proof.
  assert (Hin : ("(", "x") ∈ [("GTypeFoo", "GTypeBar"); ("(", "x")]) by (right; left).
  pose proof (invalid_pattern_exits_without_writing
                (Demo.world Demo.mkenums 0 [] []) Demo.args_with_bad_pattern Demo.st0
                [("GTypeFoo", "GTypeBar"); ("(", "x")] "(" "x"
                eq_refl Hin (λ _ _, eq_refl))
    as (_ & _ & _ & H).
  apply (H EmptyString). reflexivity.
Defined.

(** ** What the user sees of an error *)




(** ** Determinism *)

Lemma sequential_substitution_ext w1 w2 pairs text :
  (∀ p r text, re_sub w1 p r text = re_sub w2 p r text) →
  sequential_substitution w1 pairs text = sequential_substitution w2 pairs text.
Proof.
  intros H. unfold sequential_substitution. generalize (Some text).
  induction pairs as [|[p r] pairs IH]; intros acc; [done|].
  cbn [fold_left fst snd]. rewrite <- IH. f_equal.
  destruct acc as [t|]; [apply H | done].
Qed.

Lemma main_same_inputs w1 w2 args st :
  same_inputs w1 w2 args → main w2 args st = main w1 args st.
Proof.
  intros (Hp & Hw & He & Hr).
  assert (Hsp : get_script_path w2 = get_script_path w1)
    by (unfold get_script_path; by rewrite Hp).
  assert (Hargv : ∀ exe, argv_for w2 args exe = argv_for w1 args exe).
  { intros exe. unfold argv_for, resolved_sources. by rewrite Hsp. }
  assert (Hg : generate w2 args st = generate w1 args st).
  { rewrite !generate_eq, <- Hw.
    destruct (source_dir args) as [d|]; [|done].
    destruct (isdir _ d); [|done].
    destruct (which w1 _) as [exe|] eqn:Hexe; [|done].
    by rewrite Hargv, <- (He exe). }
  rewrite !main_eq, Hg.
  destruct (generate w1 args st) as [[text|e|c] st1]; [|done..].
  rewrite (sequential_substitution_ext w2 w1) by (intros; symmetry; apply Hr).
  destruct (sequential_substitution _ _ _) as [text'|]; [|done].
  rewrite !write_enum_source_file_eq. unfold targets. by rewrite Hsp.
Qed.

Lemma main_places w args st :
  same_places (st_fs st) (st_fs (main w args st).2).
Proof.
  rewrite main_eq. pose proof (generate_fs w args st) as Hfs.
  destruct (generate w args st) as [[text|e|c] st1]; cbn [snd] in *;
    [|rewrite Hfs; apply same_places_refl..].
  destruct (sequential_substitution _ _ _) as [text'|];
    [|cbn [snd]; rewrite Hfs; apply same_places_refl].
  rewrite <- Hfs. apply writer_places.
Qed.

(** A second run, started where the first one ended, ends the same way and
    leaves the file system as it found it. *)
Lemma main_again w args st st' :
  st_fs st' = st_fs (main w args st).2 →
  (main w args st').1 = (main w args st).1 ∧ st_fs (main w args st').2 = st_fs st'.
Proof.
  intros H.
  assert (HD : same_places (st_fs st) (st_fs st'))
    by (rewrite H; apply main_places).
  pose proof (generate_outcome w args st st' HD) as Ho.
  pose proof (generate_fs w args st) as Hfs.
  pose proof (generate_fs w args st') as Hfs'.
  rewrite main_eq in H. rewrite !main_eq.
  destruct (generate w args st) as [o st1], (generate w args st') as [o' st1'].
  cbn [fst snd] in Ho, Hfs, Hfs'. subst o'.
  destruct o as [text|e|c]; [|done..].
  destruct (sequential_substitution _ _ _) as [text'|]; [|done].
  split.
  - apply writer_outcome. by rewrite Hfs, Hfs'.
  - rewrite <- Hfs'. apply (writer_again w args text' st1). by rewrite Hfs'.
Qed.

(** C9. With the same arguments and a generator that behaves the same, a run
    is a function of its inputs: two runs from the same state agree in
    everything, and a second run started where the first one ended ends the
    same way and leaves every file, the output files among them, byte for
    byte as the first run left it. *)
Theorem pipeline_is_deterministic w1 w2 args st :
  same_inputs w1 w2 args →
  main w2 args st = main w1 args st
  ∧ (main w2 args (main w1 args st).2).1 = (main w1 args st).1
  ∧ st_fs (main w2 args (main w1 args st).2).2 = st_fs (main w1 args st).2.
Proof.
  intros Hsame. split; [by apply main_same_inputs|].
  rewrite (main_same_inputs w1 w2) by done.
  by apply main_again.
Qed.

Lemma pipeline_is_deterministic_witness :
  st_fs (main (Demo.other_world 0 (list_byte_of_string "GTypeFoo") []) Demo.args0
           (main (Demo.world Demo.mkenums 0 (list_byte_of_string "GTypeFoo") [])
              Demo.args0 Demo.st0).2).2
  = st_fs (main (Demo.world Demo.mkenums 0 (list_byte_of_string "GTypeFoo") [])
             Demo.args0 Demo.st0).2.
Proof.
  pose proof (pipeline_is_deterministic
                (Demo.world Demo.mkenums 0 (list_byte_of_string "GTypeFoo") [])
                (Demo.other_world 0 (list_byte_of_string "GTypeFoo") [])
                Demo.args0 Demo.st0
                (conj eq_refl (conj eq_refl
                   (conj (λ exe _, eq_refl) (λ p r text, eq_refl)))))
    as (_ & _ & H).
  exact H.
Defined.

(** The run that goes well, for once: the text of the generator, renamed, is
    in the file, and a second run leaves it there. *)
Example a_good_run :
  let w := Demo.world Demo.mkenums 0 (list_byte_of_string "GTypeFoo") [] in
  let args := {| output_file := "enums.c";
                 sources := ["a.h"; "b.h"];
                 replace := Some [("GTypeFoo", "GTypeBar")];
                 source_dir := Some "/src";
                 out_dir := Some ["/build"; "/src/scripts"] |} in
  let r := main w args Demo.st0 in
  r.1 = Returned tt
  ∧ fs_files (st_fs r.2) !! "/build/enums.c" = Some "GTypeBar"
  ∧ fs_files (st_fs r.2) !! "/src/scripts/enums.c" = Some "GTypeBar"
  ∧ st_spawned r.2 = [argv_for w args "/usr/bin/glib-mkenums"]
  ∧ resolved_sources w args = ["/src/a.h"; "/src/b.h"]
  ∧ main w args r.2 = (Returned tt, add_spawned r.2 (argv_for w args "/usr/bin/glib-mkenums")).
Proof. vm_compute. repeat split. Qed.

(** ** Further properties of the writer *)



Lemma write_all_lookup_cases fs ps text (m : gmap string string) k :
  (write_all fs ps text m).2 !! k = m !! k ∨ k ∈ fs_resolve fs <$> ps.
Proof.
  revert m. induction ps as [|p ps IH]; intros m; [by left|].
  cbn [write_all]. destruct (writable fs p); [|by left].
  destruct (decide (k = fs_resolve fs p)) as [->|Hne]; [right; left|].
  destruct (fs_encodable fs text).
  - destruct (IH (<[fs_resolve fs p := text]> m)) as [H|Hin].
    + left. rewrite H. by apply lookup_insert_ne.
    + right. by right.
  - left. by apply lookup_insert_ne.
Qed.

Lemma write_all_outcome_cases fs ps text (m : gmap string string) :
  (write_all fs ps text m).1 = Returned tt
  ∨ (write_all fs ps text m).1 = Raised OSError
  ∨ (write_all fs ps text m).1 = Raised UnicodeEncodeError.
Proof.
  revert m. induction ps as [|p ps IH]; intros m; [by left|].
  cbn [write_all]. destruct (writable fs p); [|right; by left].
  destruct (fs_encodable fs text); [apply IH | right; by right].
Qed.









(** X4. An absolute [output_file] overrides the output directories: every
    target is that path itself ([path.join] drops what precedes an absolute
    component), so whatever [--out-dir] lists, a path that does not name the
    file of [output_file] reads after the writer as it did before. *)
Theorem absolute_output_file_overrides_out_dir w args output st :
  posixpath.startswith_sep (output_file args) = true →
  (∀ p, p ∈ targets w args → p = output_file args)
  ∧ (∀ q, ¬ same_file (st_fs st) q (output_file args) →
       read_file (st_fs (write_enum_source_file w args output st).2) q
       = read_file (st_fs st) q).
Proof.
  intros Habs.
  assert (Ht : ∀ p, p ∈ targets w args → p = output_file args).
  { intros p. unfold targets, posixpath.join. rewrite Habs.
    destruct (out_dir args) as [dirs|].
    - rewrite list_elem_of_fmap. by intros (d & -> & _).
    - by rewrite list_elem_of_singleton. }
  split; [exact Ht|].
  intros q Hq. rewrite write_enum_source_file_eq.
  destruct (out_dirs_valid _ _); [|done].
  unfold read_file. cbn [snd set_files st_fs fs_files fs_resolve].
  destruct (write_all_lookup_cases (st_fs st) (targets w args) output
              (fs_files (st_fs st)) (fs_resolve (st_fs st) q)) as [H|Hin]; [done|].
  apply list_elem_of_fmap in Hin as (p & Heq & Hp).
  apply Ht in Hp as ->. by destruct Hq.
Qed.

Lemma absolute_output_file_overrides_out_dir_witness :
  targets (Demo.world Demo.mkenums 0 [] []) Cases.args_absolute
  = ["/build/enums.c"; "/build/enums.c"]
  ∧ read_file (st_fs (write_enum_source_file (Demo.world Demo.mkenums 0 [] [])
                        Cases.args_absolute "text" Demo.st0).2)
      "/src/enums.c" = None.
Proof.
  pose proof (absolute_output_file_overrides_out_dir (Demo.world Demo.mkenums 0 [] [])
                Cases.args_absolute "text" Demo.st0 eq_refl) as [_ H].
  split; [reflexivity|].
  rewrite (H "/src/enums.c") by discriminate. reflexivity.
Defined.

(** Spellings: a target written as [/build/./enums.c] is the file
    [/build/enums.c], which therefore does not keep its old text; and a
    target that is empty after its directory cannot be opened. *)
Example spellings_of_a_target :
  let w := Demo.world Demo.mkenums 0 [] [] in
  let before := set_files Demo.st0 {[ "/build/enums.c" := "old" ]} in
  let aliased := {| output_file := "./enums.c"; sources := ["a.h"]; replace := None;
                    source_dir := Some "/src"; out_dir := Some ["/build"] |} in
  let nameless := {| output_file := EmptyString; sources := ["a.h"]; replace := None;
                     source_dir := Some "/src"; out_dir := Some ["/build"] |} in
  targets w aliased = ["/build/./enums.c"]
  ∧ read_file (st_fs before) "/build/enums.c" = Some "old"
  ∧ read_file (st_fs (write_enum_source_file w aliased "new" before).2) "/build/enums.c"
    = Some "new"
  ∧ targets w nameless = ["/build/"]
  ∧ write_enum_source_file w nameless "new" before = (Raised OSError, before).
Proof. vm_compute. repeat split. Qed.

(** ** Further properties of the generation stage *)

Lemma generate_success w args st d exe rc out err :
  source_dir args = Some d →
  isdir (st_fs st) d = true →
  which w "glib-mkenums" = Some exe →
  execute w (argv_for w args exe) = Some (Exits rc out err) →
  generate w args st =
  (decoded out, add_stderr (add_spawned st (argv_for w args exe)) err).
Proof. intros Hsd Hd Hw He. by rewrite generate_eq, Hsd, Hd, Hw, He. Qed.

Lemma generate_raised w args st e st' :
  generate w args st = (Raised e, st') →
  e = TypeError ∨ e = OSError ∨ e = UnicodeDecodeError.
Proof.
  rewrite generate_eq.
  destruct (source_dir args) as [d|]; [|intros [= <- _]; by left].
  destruct (isdir _ d); [|done].
  destruct (which w _) as [exe|]; [|intros [= <- _]; by left].
  destruct (execute w _) as [[|rc out err]|]; cbn [captured].
  - intros [= <- _]. right. by left.
  - unfold decoded. destruct (utf8_valid out); [done|]. intros [= <- _]. right. by right.
  - intros [= <- _]. right. by left.
Qed.

(** X7. The generation stage never touches the file system, spawns at most
    one process, whose command line is the program found followed by the six
    template flags and the resolved sources, and prints nothing but the line
    about [--source-dir], with which it leaves. *)
Theorem generate_effects w args st :
  st_fs (generate w args st).2 = st_fs st
  ∧ (st_spawned (generate w args st).2 = st_spawned st
     ∨ ∃ exe, which w "glib-mkenums" = Some exe
              ∧ st_spawned (generate w args st).2
                = (st_spawned st ++ [argv_for w args exe])%list)
  ∧ (st_stdout (generate w args st).2 = st_stdout st
     ∨ ((generate w args st).1 = SysExit (-1)
        ∧ st_stdout (generate w args st).2
          = (st_stdout st ++ [source_dir_message])%list)).
Proof.
  split; [apply generate_fs|].
  rewrite generate_eq.
  destruct (source_dir args) as [d|]; [|by split; left].
  destruct (isdir _ d); [|by split; [left|right]].
  destruct (which w _) as [exe|] eqn:Hw; [|by split; left].
  destruct (execute w _) as [[|rc out err]|]; [..|by split; left].
  - split; [right; by exists exe | by left].
  - split; [right; by exists exe | by left].
Qed.

(** X6. When the program cannot be executed, or reading its output fails, the
    run ends with an uncaught [OSError], having printed nothing and written
    no file. *)
Theorem launch_or_capture_failure_raises w args st d exe :
  source_dir args = Some d →
  isdir (st_fs st) d = true →
  which w "glib-mkenums" = Some exe →
  execute w (argv_for w args exe) = None
  ∨ execute w (argv_for w args exe) = Some CaptureFails →
  (main w args st).1 = Raised OSError
  ∧ st_fs (main w args st).2 = st_fs st
  ∧ st_stdout (main w args st).2 = st_stdout st.
Proof.
  intros Hsd Hd Hw [He|He]; by rewrite main_eq, generate_eq, Hsd, Hd, Hw, He.
Qed.

Lemma launch_or_capture_failure_raises_witness :
  (main (Cases.world_with None) Demo.args0 Demo.st0).1 = Raised OSError
  ∧ (main (Cases.world_with (Some CaptureFails)) Demo.args0 Demo.st0).1 = Raised OSError.
Proof.
  split.
  - apply (launch_or_capture_failure_raises (Cases.world_with None) Demo.args0 Demo.st0
             "/src" "/usr/bin/glib-mkenums" eq_refl eq_refl eq_refl (or_introl eq_refl)).
  - apply (launch_or_capture_failure_raises (Cases.world_with (Some CaptureFails))
             Demo.args0 Demo.st0
             "/src" "/usr/bin/glib-mkenums" eq_refl eq_refl eq_refl (or_intror eq_refl)).
Defined.

(** X5. The replacement patterns and the output directories are looked at
    only after the generator has run: when a pattern is refused or an output
    directory is none, the run leaves with [sys.exit(-1)] and no file written,
    but the process has been spawned and its complaints are on standard
    error. *)
Theorem late_failures_follow_the_spawn w args st d exe rc out err :
  source_dir args = Some d →
  isdir (st_fs st) d = true →
  which w "glib-mkenums" = Some exe →
  execute w (argv_for w args exe) = Some (Exits rc out err) →
  utf8_valid out = true →
  sequential_substitution w (default [] (replace args)) (string_of_list_byte out) = None
  ∨ out_dirs_valid (st_fs st) args = false →
  (main w args st).1 = SysExit (-1)
  ∧ st_spawned (main w args st).2 = (st_spawned st ++ [argv_for w args exe])%list
  ∧ st_stderr (main w args st).2 = (st_stderr st ++ err)%list
  ∧ st_fs (main w args st).2 = st_fs st.
Proof.
  intros Hsd Hd Hw He Hu Hlate.
  rewrite main_eq, (generate_success w args st d exe rc out err) by done.
  unfold decoded. rewrite Hu.
  destruct (sequential_substitution _ _ _) as [text|] eqn:Hs; [|done].
  destruct Hlate as [?|Hv]; [done|].
  rewrite write_enum_source_file_eq.
  cbn [add_stderr add_spawned st_fs]. by rewrite Hv.
Qed.

Lemma late_failures_follow_the_spawn_witness :
  st_spawned (main (Demo.world Demo.mkenums 0 [] ["warning"])
                Demo.args_with_bad_out_dir Demo.st0).2
  = [argv_for (Demo.world Demo.mkenums 0 [] ["warning"]) Demo.args_with_bad_out_dir
       "/usr/bin/glib-mkenums"]
  ∧ (main (Demo.world Demo.mkenums 0 [] ["warning"])
       Demo.args_with_bad_pattern Demo.st0).1 = SysExit (-1).
Proof.
  split.
  - apply (late_failures_follow_the_spawn (Demo.world Demo.mkenums 0 [] ["warning"])
             Demo.args_with_bad_out_dir Demo.st0 "/src" "/usr/bin/glib-mkenums"
             0 [] ["warning"] eq_refl eq_refl eq_refl eq_refl eq_refl
             (or_intror eq_refl)).
  - apply (late_failures_follow_the_spawn (Demo.world Demo.mkenums 0 [] ["warning"])
             Demo.args_with_bad_pattern Demo.st0 "/src" "/usr/bin/glib-mkenums"
             0 [] ["warning"] eq_refl eq_refl eq_refl eq_refl eq_refl
             (or_introl eq_refl)).
Defined.

(** X8. The exit status of the generator has no influence on the run: two
    worlds that differ in nothing but the status their children leave with
    give the same result, from the same arguments and state. *)
Theorem exit_status_has_no_influence w1 w2 args st :
  argv0_realpath w1 = argv0_realpath w2 →
  which w1 "glib-mkenums" = which w2 "glib-mkenums" →
  (∀ argv, same_but_status (execute w1 argv) (execute w2 argv)) →
  (∀ p r text, re_sub w1 p r text = re_sub w2 p r text) →
  main w2 args st = main w1 args st.
Proof.
  intros Hp Hw He Hr.
  assert (Hsp : get_script_path w2 = get_script_path w1)
    by (unfold get_script_path; by rewrite Hp).
  assert (Hargv : ∀ exe, argv_for w2 args exe = argv_for w1 args exe).
  { intros exe. unfold argv_for, resolved_sources. by rewrite Hsp. }
  assert (Hg : generate w2 args st = generate w1 args st).
  { rewrite !generate_eq, <- Hw.
    destruct (source_dir args) as [d|]; [|done].
    destruct (isdir _ d); [|done].
    destruct (which w1 _) as [exe|]; [|done].
    rewrite Hargv. specialize (He (argv_for w1 args exe)).
    destruct (execute w1 _) as [[|rc out err]|], (execute w2 _) as [[|rc' out' err']|];
      cbn [same_but_status] in He; try done.
    by destruct He as [-> ->]. }
  rewrite !main_eq, Hg.
  destruct (generate w1 args st) as [[text|e|c] st1]; [|done..].
  rewrite (sequential_substitution_ext w2 w1) by (intros; symmetry; apply Hr).
  destruct (sequential_substitution _ _ _) as [text'|]; [|done].
  rewrite !write_enum_source_file_eq. unfold targets. by rewrite Hsp.
Qed.

Lemma exit_status_has_no_influence_witness :
  main (Demo.world Demo.mkenums 1 (list_byte_of_string "GTypeFoo") [])
    Cases.args_renaming Demo.st0
  = main (Demo.world Demo.mkenums 0 (list_byte_of_string "GTypeFoo") [])
      Cases.args_renaming Demo.st0.
Proof.
  apply (exit_status_has_no_influence
           (Demo.world Demo.mkenums 0 (list_byte_of_string "GTypeFoo") [])
           (Demo.world Demo.mkenums 1 (list_byte_of_string "GTypeFoo") [])
           Cases.args_renaming Demo.st0 eq_refl eq_refl
           (λ _, conj eq_refl eq_refl) (λ _ _ _, eq_refl)).
Defined.

Lemma utf8_valid_ascii bs : ascii_only bs → utf8_valid bs = true.
Proof.
  intros H. induction H as [|b bs Hb _ IH]; [done|].
  cbn [utf8_valid]. by rewrite Hb.
Qed.

(** X11. Plain ASCII output always passes the decoder and comes back as the
    very text the generator printed, character for character. *)
Theorem ascii_output_is_returned_unchanged w args st d exe rc text err :
  source_dir args = Some d →
  isdir (st_fs st) d = true →
  which w "glib-mkenums" = Some exe →
  execute w (argv_for w args exe) = Some (Exits rc (list_byte_of_string text) err) →
  ascii_only (list_byte_of_string text) →
  (generate w args st).1 = Returned text.
Proof.
  intros Hsd Hd Hw He Ha.
  rewrite (generate_success w args st d exe rc _ err) by done.
  unfold decoded. rewrite (utf8_valid_ascii _ Ha). cbn [fst].
  by rewrite string_of_list_byte_of_string.
Qed.

Lemma ascii_output_is_returned_unchanged_witness :
  (generate (Demo.world Demo.mkenums 0 (list_byte_of_string "GTypeFoo") [])
     Demo.args0 Demo.st0).1 = Returned "GTypeFoo".
Proof.
  assert (Ha : ascii_only (list_byte_of_string "GTypeFoo")) by (repeat constructor).
  apply (ascii_output_is_returned_unchanged
           (Demo.world Demo.mkenums 0 (list_byte_of_string "GTypeFoo") [])
           Demo.args0 Demo.st0 "/src" "/usr/bin/glib-mkenums" 0 "GTypeFoo" []
           eq_refl eq_refl eq_refl eq_refl Ha).
Defined.

(** X12. Sources given as absolute paths reach the generator as they are,
    whatever [--source-dir] says and wherever the script lies. *)
Theorem absolute_sources_are_kept w args :
  Forall (λ s, posixpath.startswith_sep s = true) (sources args) →
  resolved_sources w args = sources args.
Proof.
  intros H. unfold resolved_sources.
  assert (Hmap : ∀ base, map (λ s, posixpath.join base s) (sources args) = sources args).
  { intros base. induction H as [|s l Hs _ IH]; [done|].
    cbn [map]. rewrite IH. unfold posixpath.join. by rewrite Hs. }
  destruct (source_dir args); apply Hmap.
Qed.

Lemma absolute_sources_are_kept_witness :
  resolved_sources (Demo.world Demo.mkenums 0 [] []) Cases.args_absolute
  = ["/usr/include/a.h"].
Proof.
  apply (absolute_sources_are_kept (Demo.world Demo.mkenums 0 [] []) Cases.args_absolute).
  repeat constructor.
Defined.

(** ** Further properties of the whole run *)



Lemma captured_stdout p st : st_stdout (captured p st).2 = st_stdout st.
Proof. by destruct p. Qed.

Lemma generate_stdout w args st :
  (∀ c, (generate w args st).1 ≠ SysExit c) →
  st_stdout (generate w args st).2 = st_stdout st.
Proof.
  rewrite generate_eq.
  destruct (source_dir args) as [d|]; [|done].
  destruct (isdir _ d); [|intros H; by destruct (H (-1))].
  destruct (which w _) as [exe|]; [|done].
  destruct (execute w _) as [p|]; [|done].
  intros _. by rewrite captured_stdout.
Qed.

(** X13. Only the writer changes files: a run that ends in [sys.exit] does
    so with [-1] and an unchanged file system, and so does a run that ends
    with an exception that is neither [OSError] nor [UnicodeEncodeError], the
    two the writer can raise; the [AssertionError] of the directory checks
    and the [re.error] of the regex engine never leave the script. *)
Theorem only_the_writer_changes_files w args st :
  (∀ c, (main w args st).1 = SysExit c →
        c = -1 ∧ st_fs (main w args st).2 = st_fs st)
  ∧ (∀ e, (main w args st).1 = Raised e →
          e ≠ AssertionError ∧ e ≠ re_error
          ∧ (e ≠ OSError → e ≠ UnicodeEncodeError →
             st_fs (main w args st).2 = st_fs st)).
Proof.
  rewrite main_eq.
  pose proof (generate_fs w args st) as Hfs.
  destruct (generate w args st) as [[text|e|c] st1] eqn:Hg; cbn [snd] in Hfs.
  - destruct (sequential_substitution _ _ _) as [text'|].
    + rewrite write_enum_source_file_eq.
      destruct (out_dirs_valid _ _).
      * cbn [fst snd].
        destruct (write_all_outcome_cases (st_fs st1) (targets w args) text'
                    (fs_files (st_fs st1))) as [Ho | [Ho | Ho]]; rewrite Ho.
        -- by split.
        -- split; [done|]. intros e [= <-]. by repeat split.
        -- split; [done|]. intros e [= <-]. by repeat split.
      * split; [by intros c [= <-] | done].
    + split; [by intros c [= <-] | done].
  - apply generate_raised in Hg.
    split; [done|]. intros e' [= <-].
    destruct Hg as [-> | [-> | ->]]; by repeat split.
  - apply generate_exit in Hg as (-> & -> & _).
    split; [by intros c [= <-] | done].
Qed.

Lemma only_the_writer_changes_files_witness :
  st_fs (main (Demo.world Demo.mkenums 0 [] []) Demo.args_with_bad_pattern Demo.st0).2
  = Demo.fs0.
Proof.
  pose proof (only_the_writer_changes_files (Demo.world Demo.mkenums 0 [] [])
                Demo.args_with_bad_pattern Demo.st0) as [H _].
  apply (H (-1)). reflexivity.
Defined.

(** X14. The script is silent when it succeeds, and in any run prints at most
    one line: one of the two messages about directories, on its way out with
    [sys.exit(-1)]. *)
Theorem at_most_one_line_is_printed w args st :
  st_stdout (main w args st).2 = st_stdout st
  ∨ ((main w args st).1 = SysExit (-1)
     ∧ (st_stdout (main w args st).2 = (st_stdout st ++ [source_dir_message])%list
        ∨ st_stdout (main w args st).2 = (st_stdout st ++ [out_dir_message])%list)).
Proof.
  rewrite main_eq.
  pose proof (generate_stdout w args st) as Hout.
  destruct (generate w args st) as [[text|e|c] st1] eqn:Hg; cbn [fst snd] in Hout.
  - rewrite <- Hout by done.
    destruct (sequential_substitution _ _ _) as [text'|]; [|by left].
    rewrite write_enum_source_file_eq.
    destruct (out_dirs_valid _ _); [by left|]. right. split; [done|]. by right.
  - left. by apply Hout.
  - apply generate_exit in Hg as (-> & -> & _). right. split; [done|]. by left.
Qed.

(** ** A further property of the post-processor *)

(** X9. Replacement lists compose: running the loop over one list followed by
    another is running it over the first and then, on its result, over the
    second; a refusal in the first keeps the second from running. *)
Theorem replace_loop_app w (pairs1 pairs2 : list (string * string)) output st :
  replace_loop w (pairs1 ++ pairs2) output st =
  (replace_loop w pairs1 output ≫= replace_loop w pairs2) st.
Proof.
  revert output. induction pairs1 as [|[p r] pairs1 IH]; intros output; [done|].
  change (((p, r) :: pairs1) ++ pairs2)%list with ((p, r) :: (pairs1 ++ pairs2))%list.
  rewrite replace_loop_cons. unfold mbind, M_bind in *. rewrite replace_loop_cons.
  destruct (re_sub w p r output) as [output'|]; [apply IH | done].
Qed.

